(** * Gradient boosting over regression-tree weak learners

    A shallow embedding of [models/gradient_boosting_tree.py]: the abstract
    class [GradientBoostingTree] (constructor, [fit], [predict]) and its two
    subclasses [GradientBoostingClassifier] and [GradientBoostingRegressor].

    - Numbers.  The Python code computes on numpy float64 values.  The engine
      and the policies are stated over an abstract numeric interface
      ([NumOps], [NumFun]), so what is proved of them holds for any
      arithmetic, rounded or not.  Three instances are given: binary64
      floating point with Rocq's primitive floats ([F_ops], [F_fun], with
      [np.sum], [np.exp], [np.log] and [np.round] left as parameters), exact
      rationals ([Q_ops]) for running the engine, and exact reals ([R_ops],
      [R_fun]) as a model of the interface in which its laws can be checked.
      Neither exact instance stands for float64.
    - Arrays.  One-dimensional numpy arrays are lists; a feature matrix is a
      list of rows.  Element-wise operators follow numpy's broadcasting rule
      for one-dimensional operands and raise [ValueError] otherwise.
    - The object.  The attributes of [self] form the record
      [GradientBoostingTree]; methods are computations in a state-and-exception
      monad over that record.  The attribute [initial_prediction] is not
      created by the constructor, hence an [option].
    - The weak learner.  [models/decision_tree.py] is outside this file's
      scope; [DecisionTreeRegressor] is taken as a parameter through the two
      operations the engine calls. *)

From Stdlib Require Floats.
From Stdlib Require Import ZArith List Bool Lia Reals Lra QArith Sorted.
Import ListNotations.

Set Implicit Arguments.

(** ** Numeric interface *)

(** Scalar arithmetic used by the engine and by the regression policy, and
    the sum of a vector ([np.sum]), whose order of additions is the
    library's own. *)
Class NumOps (num : Type) : Type := {
  of_Z : Z -> num;
  fadd : num -> num -> num;
  fsub : num -> num -> num;
  fmul : num -> num -> num;
  fdiv : num -> num -> num;
  fneg : num -> num;
  fsum : list num -> num
}.

(** Functions of the numeric library used by the classification policy:
    [np.exp], [np.log], [np.round(_, 0)], [np.maximum], [np.minimum] and the
    literal [1e-10]. *)
Class NumFun (num : Type) : Type := {
  np_exp : num -> num;
  np_log : num -> num;
  np_round : num -> num;
  np_maximum : num -> num -> num;
  np_minimum : num -> num -> num;
  lit_1e_10 : num
}.

(** ** Exceptions and results *)

Inductive exn : Type :=
| AttributeError
| ValueError.

Inductive outcome (A : Type) : Type :=
| Return (a : A)
| Raise (e : exn).

Arguments Return {A} a.
Arguments Raise {A} e.

(** ** One-dimensional arrays *)

Section Arrays.
Context {num : Type} {ops : NumOps num}.

(** [np.full(n, v)] *)
Definition np_full (n : nat) (v : num) : list num := repeat v n.

(** Element-wise application on two arrays of the same length. *)
Definition zip_with (f : num -> num -> num) (a b : list num) : list num :=
  map (fun p => f (fst p) (snd p)) (combine a b).

(** [a (op) b] for one-dimensional [a], [b]: equal shapes, or one operand
    of length one stretched over the other; any other pair of shapes
    raises. *)
Definition np_binop (f : num -> num -> num) (a b : list num)
  : outcome (list num) :=
  if Nat.eqb (length a) (length b) then Return (zip_with f a b)
  else match b with
       | [y] => Return (map (fun x => f x y) a)
       | _ => match a with
              | [x] => Return (map (fun y => f x y) b)
              | _ => Raise ValueError
              end
       end.

(** [a += b]: the result keeps the shape of [a], so only [b] may be
    stretched. *)
Definition np_iadd (a b : list num) : outcome (list num) :=
  if Nat.eqb (length a) (length b) then Return (zip_with fadd a b)
  else match b with
       | [y] => Return (map (fun x => fadd x y) a)
       | _ => Raise ValueError
       end.

(** [c * v] for a scalar [c]. *)
Definition np_scale (c : num) (v : list num) : list num := map (fmul c) v.

Definition np_sum (v : list num) : num := fsum v.

(** [np.mean(v)]: the sum divided by the number of entries. *)
Definition np_mean (v : list num) : num :=
  fdiv (np_sum v) (of_Z (Z.of_nat (length v))).
End Arrays.

Section Clip.
Context {num : Type} {ops : NumOps num} {funs : NumFun num}.

(** [np.clip(a, lo, hi)], that is [np.minimum(hi, np.maximum(a, lo))]. *)
Definition np_clip (a lo hi : num) : num := np_minimum hi (np_maximum a lo).

(** [1 / (1 + np.exp(-x))] *)
Definition sigmoid (x : num) : num :=
  fdiv (of_Z 1) (fadd (of_Z 1) (np_exp (fneg x))).
End Clip.

(** ** The weak learner (external collaborator) *)

(** [tree_fit d X r] stands for
    [e = DecisionTreeRegressor(max_depth=d); e.fit(X, r)] and yields the
    fitted learner; [tree_predict e X] stands for [e.predict(X)]. *)
Class DecisionTreeRegressor (num tree : Type) : Type := {
  tree_fit : Z -> list (list num) -> list num -> tree;
  tree_predict : tree -> list (list num) -> list num
}.

(** ** The abstract methods *)

Record AbstractMethods (num : Type) : Type := {
  _compute_residuals : list num -> list num -> outcome (list num);
  _initial_prediction : list num -> num;
  _interpret_prediction : num -> num
}.

Section Subclasses.
Context {num : Type} {ops : NumOps num}.

Definition GradientBoostingRegressor : AbstractMethods num := {|
  _compute_residuals := fun Y prediction => np_binop fsub Y prediction;
  _initial_prediction := fun Y => np_mean Y;
  _interpret_prediction := fun prediction => prediction
|}.

Context {funs : NumFun num}.

Definition GradientBoostingClassifier : AbstractMethods num := {|
  _compute_residuals := fun Y prediction =>
    np_binop fsub Y (map sigmoid prediction);
  _initial_prediction := fun Y =>
    let p := np_clip (np_mean Y) lit_1e_10 (fsub (of_Z 1) lit_1e_10) in
    np_log (fdiv p (fsub (of_Z 1) p));
  _interpret_prediction := fun prediction => np_round (sigmoid prediction)
|}.
End Subclasses.

(** ** The object and its methods *)

Section Engine.
Context {num tree : Type} {ops : NumOps num}
        {learner : DecisionTreeRegressor num tree}.

(** The attributes of [self]. *)
Record GradientBoostingTree : Type := {
  estimators : list tree;
  max_depth : Z;
  n_estimators : Z;
  learning_rate : num;
  initial_prediction : option num
}.

(** State-and-exception monad over the object. *)
Definition M (A : Type) : Type :=
  GradientBoostingTree -> outcome A * GradientBoostingTree.

Definition ret {A} (a : A) : M A := fun s => (Return a, s).

Definition bind {A B} (c : M A) (k : A -> M B) : M B :=
  fun s => match c s with
           | (Return a, s') => k a s'
           | (Raise e, s') => (Raise e, s')
           end.

Definition lift {A} (r : outcome A) : M A := fun s => (r, s).

Definition gets {A} (attr : GradientBoostingTree -> A) : M A :=
  fun s => (Return (attr s), s).

(** Reading [self.initial_prediction]. *)
Definition get_initial_prediction : M num :=
  fun s => match initial_prediction s with
           | Some v => (Return v, s)
           | None => (Raise AttributeError, s)
           end.

(** [self.initial_prediction = v] *)
Definition set_initial_prediction (v : num) : M unit :=
  fun s => (Return tt,
            {| estimators := estimators s;
               max_depth := max_depth s;
               n_estimators := n_estimators s;
               learning_rate := learning_rate s;
               initial_prediction := Some v |}).

(** [self.estimators.append(e)] *)
Definition append_estimator (e : tree) : M unit :=
  fun s => (Return tt,
            {| estimators := estimators s ++ [e];
               max_depth := max_depth s;
               n_estimators := n_estimators s;
               learning_rate := learning_rate s;
               initial_prediction := initial_prediction s |}).

Notation "x <- c ;; k" := (bind c (fun x => k))
  (at level 61, c at next level, right associativity).
Notation "c ;;; k" := (bind c (fun _ => k))
  (at level 61, right associativity).

(** [GradientBoostingTree.__init__] *)
Definition __init__ (n : Z) (d : Z) (lr : num) : GradientBoostingTree := {|
  estimators := [];
  max_depth := d;
  n_estimators := n;
  learning_rate := lr;
  initial_prediction := None
|}.

Variable cls : AbstractMethods num.

(** The body of [for _ in range(...)] in [fit], run [k] times. *)
Fixpoint boosting_loop (k : nat) (X : list (list num)) (Y : list num)
         (predictions : list num) : M unit :=
  match k with
  | O => ret tt
  | S k' =>
      residuals <- lift (_compute_residuals cls Y predictions) ;;
      d <- gets max_depth ;;
      let estimator := tree_fit d X residuals in
      lr <- gets learning_rate ;;
      predictions' <-
        lift (np_iadd predictions (np_scale lr (tree_predict estimator X))) ;;
      append_estimator estimator ;;;
      boosting_loop k' X Y predictions'
  end.

Definition fit (X : list (list num)) (Y : list num) : M unit :=
  set_initial_prediction (_initial_prediction cls Y) ;;;
  v <- get_initial_prediction ;;
  let predictions := np_full (length Y) v in
  n <- gets n_estimators ;;
  boosting_loop (Z.to_nat n) X Y predictions.

(** The body of [for estimator in self.estimators] in [predict]. *)
Fixpoint accumulate (ens : list tree) (X : list (list num))
         (predictions : list num) : M (list num) :=
  match ens with
  | [] => ret predictions
  | estimator :: rest =>
      lr <- gets learning_rate ;;
      predictions' <-
        lift (np_iadd predictions (np_scale lr (tree_predict estimator X))) ;;
      accumulate rest X predictions'
  end.

Definition predict (X : list (list num)) : M (list num) :=
  v <- get_initial_prediction ;;
  let predictions := np_full (length X) v in
  ens <- gets estimators ;;
  predictions' <- accumulate ens X predictions ;;
  ret (map (_interpret_prediction cls) predictions').
End Engine.

Arguments GradientBoostingTree : clear implicits.
Arguments M : clear implicits.

(** ** Exact real arithmetic

    A model of the numeric interface without rounding.  It serves to show
    that the laws assumed of the numeric library can be met; it is not a
    model of float64. *)

(** Rounding to the nearest integer, ties to the even neighbour: the rule of
    [np.round]. *)
Definition round_half_even (x : R) : R :=
  let f := Int_part x in
  let d := (x - IZR f)%R in
  if Rlt_dec d (1 / 2) then IZR f
  else if Rlt_dec (1 / 2) d then IZR (f + 1)
  else if Z.even f then IZR f else IZR (f + 1).

Definition R_ops : NumOps R := {|
  of_Z := IZR;
  fadd := Rplus;
  fsub := Rminus;
  fmul := Rmult;
  fdiv := Rdiv;
  fneg := Ropp;
  fsum := fun v => fold_left Rplus v 0%R
|}.

Definition R_fun : NumFun R := {|
  np_exp := exp;
  np_log := ln;
  np_round := round_half_even;
  np_maximum := Rmax;
  np_minimum := Rmin;
  lit_1e_10 := (/ 10 ^ 10)%R
|}.

(** The classification policy over the reals. *)
Definition R_classifier : AbstractMethods R :=
  @GradientBoostingClassifier R R_ops R_fun.

(** ** Binary64 arithmetic

    numpy's float64 is IEEE 754 binary64 with rounding to nearest, ties to
    even, which is what the primitive floats compute. *)

(** Conversion of an integer, correctly rounded. *)
Definition F_of_Z (z : Z) : PrimFloat.float :=
  FloatOps.SF2Prim
    (SpecFloat.binary_normalize FloatOps.prec FloatOps.emax z 0 false).

(** [np.sum] adds the entries of a long vector in blocks; it is taken as
    given. *)
Definition F_ops (f_sum : list PrimFloat.float -> PrimFloat.float)
  : NumOps PrimFloat.float := {|
  of_Z := F_of_Z;
  fadd := PrimFloat.add;
  fsub := PrimFloat.sub;
  fmul := PrimFloat.mul;
  fdiv := PrimFloat.div;
  fneg := PrimFloat.opp;
  fsum := f_sum
|}.

(** [np.maximum]: the first operand unless the second is larger; a nan
    operand is returned. *)
Definition F_maximum (a b : PrimFloat.float) : PrimFloat.float :=
  if PrimFloat.leb b a || PrimFloat.is_nan a then a else b.

(** [np.minimum]: the first operand unless the second is smaller; a nan
    operand is returned. *)
Definition F_minimum (a b : PrimFloat.float) : PrimFloat.float :=
  if PrimFloat.leb a b || PrimFloat.is_nan a then a else b.

(** The literal [1e-10]: the binary64 value nearest to one over ten to the
    tenth, which is what the correctly rounded quotient gives. *)
Definition F_1e_10 : PrimFloat.float :=
  PrimFloat.div (F_of_Z 1) (F_of_Z (10 ^ 10)).

(** [np.exp], [np.log] and [np.round] are not primitives; they are taken as
    given. *)
Definition F_fun (f_exp f_log f_round : PrimFloat.float -> PrimFloat.float)
  : NumFun PrimFloat.float := {|
  np_exp := f_exp;
  np_log := f_log;
  np_round := f_round;
  np_maximum := F_maximum;
  np_minimum := F_minimum;
  lit_1e_10 := F_1e_10
|}.

(** The sum taken from left to right, starting from zero.  Where every
    partial sum is exact, as for a few zeros and ones, any order of addition
    gives this value. *)
Definition F_sum_left (v : list PrimFloat.float) : PrimFloat.float :=
  fold_left PrimFloat.add v (F_of_Z 0).

(** ** Exact rational arithmetic, for running the engine *)

Definition Q_ops : NumOps Q := {|
  of_Z := inject_Z;
  fadd := fun a b => Qred (Qplus a b);
  fsub := fun a b => Qred (Qminus a b);
  fmul := fun a b => Qred (Qmult a b);
  fdiv := fun a b => Qred (Qdiv a b);
  fneg := fun a => Qred (Qopp a);
  fsum := fun v => fold_left (fun a b => Qred (Qplus a b)) v 0%Q
|}.

(** A weak learner that memorises its training targets: a tree grown until
    every leaf holds one training row.  Rows are addressed by position; a
    row beyond the training set gets the prediction zero. *)
Definition Memorizer {num : Type} {ops : NumOps num}
  : DecisionTreeRegressor num (list num) := {|
  tree_fit := fun _ _ r => r;
  tree_predict := fun t X => map (fun j => nth j t (of_Z 0)) (seq 0 (length X))
|}.

Definition Q_regressor : AbstractMethods Q :=
  @GradientBoostingRegressor Q Q_ops.

Definition Q_fit := @fit Q (list Q) Q_ops (@Memorizer Q Q_ops) Q_regressor.
Definition Q_predict :=
  @predict Q (list Q) Q_ops (@Memorizer Q Q_ops) Q_regressor.
Definition Q_init := @__init__ Q (list Q).

(** A training set of two rows, and the regressor fitted on it with two
    rounds at learning rate one half. *)
Definition demo_X : list (list Q) := [[0%Q]; [1%Q]].
Definition demo_Y : list Q := [2%Q; 4%Q].
Definition demo_fitted : GradientBoostingTree Q (list Q) :=
  snd (Q_fit demo_X demo_Y (Q_init 2 1 (1 # 2)%Q)).

(** ** The boosting iteration in the words of the specification *)

Section Rounds.
Context {num tree : Type} {ops : NumOps num}
        {learner : DecisionTreeRegressor num tree}.
Variable cls : AbstractMethods num.
Variables (d : Z) (lr : num) (X : list (list num)) (Y : list num).
Variable v : num.

(** [rounds i p ens]: after [i] iterations the working prediction vector is
    [p] and the learners fitted so far are [ens], oldest first. *)
Inductive rounds : nat -> list num -> list tree -> Prop :=
| rounds_start p :
    length p = length Y ->
    (forall j, (j < length Y)%nat -> nth j p (of_Z 0) = v) ->
    rounds 0 p []
| rounds_step i p ens residuals estimator p' :
    rounds i p ens ->
    _compute_residuals cls Y p = Return residuals ->
    estimator = tree_fit d X residuals ->
    length p' = length p ->
    (forall j, (j < length p)%nat ->
       nth j p' (of_Z 0) =
       fadd (nth j p (of_Z 0))
            (fmul lr (nth j (tree_predict estimator X) (of_Z 0)))) ->
    rounds (S i) p' (ens ++ [estimator]).

(** The raw score of sample [j]: the initial prediction, then one scaled
    contribution per learner, added in insertion order. *)
Definition raw_score (ens : list tree) (j : nat) : num :=
  fold_left
    (fun acc estimator =>
       fadd acc (fmul lr (nth j (tree_predict estimator X) (of_Z 0))))
    ens v.
End Rounds.

(** ** Laws of the numeric library used by the classifier's interpretation

    [le] and [lt] stand for the order of the numbers.  The laws speak of the
    reciprocal of a number that is at least one, which is the form the
    sigmoid takes.  They hold for float64 with numpy's [np.round] (ties to
    even, so one half is rounded to zero) and for the exact reals. *)
Record RoundingLaws (num : Type) (ops : NumOps num) (funs : NumFun num)
       (le lt : num -> num -> Prop) : Prop := {
  one_plus_nonneg :
    forall e, le (of_Z 0) e -> le (of_Z 1) (fadd (of_Z 1) e);
  reciprocal_against_half :
    forall d, le (of_Z 1) d ->
      lt (fdiv (of_Z 1) d) (fdiv (of_Z 1) (of_Z 2)) \/
      fdiv (of_Z 1) d = fdiv (of_Z 1) (of_Z 2) \/
      lt (fdiv (of_Z 1) (of_Z 2)) (fdiv (of_Z 1) d);
  round_below_half :
    forall d, le (of_Z 1) d ->
      lt (fdiv (of_Z 1) d) (fdiv (of_Z 1) (of_Z 2)) ->
      np_round (fdiv (of_Z 1) d) = of_Z 0;
  round_above_half :
    forall d, le (of_Z 1) d ->
      lt (fdiv (of_Z 1) (of_Z 2)) (fdiv (of_Z 1) d) ->
      np_round (fdiv (of_Z 1) d) = of_Z 1;
  round_half :
    np_round (fdiv (of_Z 1) (of_Z 2)) = of_Z 0
}.

(** ** The boosting iteration on a feature matrix of one row *)

Section RoundsSingleRow.
Context {num tree : Type} {ops : NumOps num}
        {learner : DecisionTreeRegressor num tree}.
Variable cls : AbstractMethods num.
Variables (d : Z) (lr : num) (X : list (list num)) (Y : list num).
Variable v : num.

(** As [rounds], but every entry of the working vector receives the one
    prediction the learner makes, for the one row of [X]. *)
Inductive rounds_single_row : nat -> list num -> list tree -> Prop :=
| single_row_start p :
    length p = length Y ->
    (forall j, (j < length Y)%nat -> nth j p (of_Z 0) = v) ->
    rounds_single_row 0 p []
| single_row_step i p ens residuals estimator p' :
    rounds_single_row i p ens ->
    _compute_residuals cls Y p = Return residuals ->
    estimator = tree_fit d X residuals ->
    length p' = length p ->
    (forall j, (j < length p)%nat ->
       nth j p' (of_Z 0) =
       fadd (nth j p (of_Z 0))
            (fmul lr (nth 0 (tree_predict estimator X) (of_Z 0)))) ->
    rounds_single_row (S i) p' (ens ++ [estimator]).
End RoundsSingleRow.

(** ** One-hot encoding of class labels *)

(** Class labels are integers.  [np.unique] returns the distinct values of
    its argument in increasing order. *)
Fixpoint insert_sorted (c : Z) (l : list Z) : list Z :=
  match l with
  | [] => [c]
  | x :: l' =>
      if (c <? x)%Z then c :: l
      else if (c =? x)%Z then l
      else x :: insert_sorted c l'
  end.

Definition np_unique (Y : list Z) : list Z := fold_right insert_sorted [] Y.

(** [np.array(rows).T] for [rows] of common length [n]: row [i] of the result
    collects entry [i] of every given row.  Without any row the array is
    empty, which is also what [n = 0] gives. *)
Definition np_transpose (n : nat) (rows : list (list bool))
  : list (list bool) :=
  map (fun i => map (fun row => nth i row false) rows) (seq 0 n).

(** [GradientBoostingClassifier._one_hot_encode] *)
Definition _one_hot_encode (Y : list Z) : list (list bool) :=
  let classes := np_unique Y in
  np_transpose (length Y) (map (fun c => map (fun y => Z.eqb y c) Y) classes).

(** The object as a failed or completed [fit] leaves it: a new initial
    prediction and some learners appended. *)
Definition after_fit {num tree : Type} (s : GradientBoostingTree num tree)
           (v : num) (ens : list tree) : GradientBoostingTree num tree := {|
  estimators := estimators s ++ ens;
  max_depth := max_depth s;
  n_estimators := n_estimators s;
  learning_rate := learning_rate s;
  initial_prediction := Some v
|}.

(** * Facts about one-dimensional arrays *)

Section ArrayFacts.
Context {num : Type} {ops : NumOps num}.

Lemma np_full_length (n : nat) (v : num) : length (np_full n v) = n.
Proof. apply repeat_length. Qed.

Lemma np_full_nth (n j : nat) (v dflt : num) :
  (j < n)%nat -> nth j (np_full n v) dflt = v.
Proof.
  unfold np_full. revert j.
  induction n as [|n IH]; intros [|j] Hj; simpl; try lia; auto.
  apply IH; lia.
Qed.

Lemma zip_with_length (f : num -> num -> num) (a b : list num) :
  length a = length b -> length (zip_with f a b) = length a.
Proof.
  intros Hab. unfold zip_with.
  rewrite length_map, length_combine, <- Hab. apply Nat.min_id.
Qed.

Lemma zip_with_nth (f : num -> num -> num) (a b : list num) (j : nat)
      (dflt : num) :
  length a = length b -> (j < length a)%nat ->
  nth j (zip_with f a b) dflt = f (nth j a dflt) (nth j b dflt).
Proof.
  unfold zip_with. revert b j.
  induction a as [|x a IH]; intros [|y b] [|j] Hab Hj;
    simpl in *; try lia; auto.
  apply IH; lia.
Qed.

Lemma map_nth_lt (g : num -> num) (l : list num) (j : nat) (dflt : num) :
  (j < length l)%nat -> nth j (map g l) dflt = g (nth j l dflt).
Proof.
  revert j. induction l as [|x l IH]; intros [|j] Hj;
    simpl in *; try lia; auto.
  apply IH; lia.
Qed.

Lemma np_scale_length (c : num) (v : list num) :
  length (np_scale c v) = length v.
Proof. apply length_map. Qed.

Lemma np_scale_nth (c : num) (v : list num) (j : nat) (dflt : num) :
  (j < length v)%nat -> nth j (np_scale c v) dflt = fmul c (nth j v dflt).
Proof. apply map_nth_lt. Qed.

Lemma np_binop_same_shape (f : num -> num -> num) (a b : list num) :
  length a = length b -> np_binop f a b = Return (zip_with f a b).
Proof.
  intros Hab. unfold np_binop. rewrite Hab, Nat.eqb_refl. reflexivity.
Qed.

Lemma np_iadd_same_shape (a b : list num) :
  length a = length b -> np_iadd a b = Return (zip_with fadd a b).
Proof.
  intros Hab. unfold np_iadd. rewrite Hab, Nat.eqb_refl. reflexivity.
Qed.

(** An in-place addition that succeeds keeps the length of its target. *)
Lemma np_iadd_length (a b r : list num) :
  np_iadd a b = Return r -> length r = length a.
Proof.
  unfold np_iadd. destruct (Nat.eqb_spec (length a) (length b)) as [E|E].
  - intros [= <-]. now apply zip_with_length.
  - destruct b as [|y [|z b]]; try discriminate.
    intros [= <-]. apply length_map.
Qed.
End ArrayFacts.

(** * Facts about the object's methods *)

Ltac run_monad :=
  unfold bind, lift, gets, ret, get_initial_prediction,
    set_initial_prediction, append_estimator; simpl.

Section EngineFacts.
Context {num tree : Type} {ops : NumOps num}
        {learner : DecisionTreeRegressor num tree}.
Variable cls : AbstractMethods num.

Local Abbreviation object := (GradientBoostingTree num tree).

(** The traversal of the ensemble reads [learning_rate] only and leaves
    the object as it found it. *)
Lemma accumulate_reads_learning_rate
      (ens : list tree) (X : list (list num)) (lr : num) :
  forall p, exists r, forall s : object,
      learning_rate s = lr -> accumulate ens X p s = (r, s).
Proof.
  induction ens as [|e ens IH]; intros p; simpl.
  - exists (Return p). reflexivity.
  - destruct (np_iadd p (np_scale lr (tree_predict e X))) as [p'|x] eqn:E.
    + destruct (IH p') as [r Hr]. exists r. intros s Hs.
      run_monad. rewrite Hs, E. now apply Hr.
    + exists (Raise x). intros s Hs. run_monad. now rewrite Hs, E.
Qed.

Lemma accumulate_state (ens : list tree) (X : list (list num))
      (p : list num) (s : object) :
  snd (accumulate ens X p s) = s.
Proof.
  destruct (accumulate_reads_learning_rate ens X (learning_rate s) p)
    as [r Hr].
  now rewrite (Hr s eq_refl).
Qed.

Lemma predict_state (X : list (list num)) (s : object) :
  snd (predict cls X s) = s.
Proof.
  unfold predict. run_monad.
  destruct (initial_prediction s) as [v|]; [|reflexivity].
  pose proof (accumulate_state (estimators s) X (np_full (length X) v) s)
    as Hs.
  destruct (accumulate (estimators s) X (np_full (length X) v) s)
    as [[p'|x] s']; simpl in *; now subst.
Qed.

(** [predict] is determined by three attributes and its argument. *)
Lemma predict_reads (X : list (list num)) (s1 s2 : object) :
  estimators s1 = estimators s2 ->
  initial_prediction s1 = initial_prediction s2 ->
  learning_rate s1 = learning_rate s2 ->
  fst (predict cls X s1) = fst (predict cls X s2).
Proof.
  intros He Hv Hlr. unfold predict. run_monad. rewrite <- Hv.
  destruct (initial_prediction s1) as [v|]; [|reflexivity].
  rewrite <- He.
  destruct (accumulate_reads_learning_rate (estimators s1) X
              (learning_rate s1) (np_full (length X) v)) as [r Hr].
  rewrite (Hr s1 eq_refl), (Hr s2 (eq_sym Hlr)).
  destruct r; reflexivity.
Qed.

(** Whatever happens inside the loop of [fit], only [estimators] is
    written, and only by appending. *)
Lemma boosting_loop_frame (k : nat) (X : list (list num)) (Y : list num) :
  forall (p : list num) (s : object),
    let s' := snd (boosting_loop cls k X Y p s) in
    n_estimators s' = n_estimators s /\
    max_depth s' = max_depth s /\
    learning_rate s' = learning_rate s /\
    initial_prediction s' = initial_prediction s /\
    exists ens, estimators s' = estimators s ++ ens /\ (length ens <= k)%nat.
Proof.
  induction k as [|k IH]; intros p s; simpl.
  - repeat split; auto. exists []. now rewrite app_nil_r.
  - run_monad.
    destruct (_compute_residuals cls Y p) as [r|x]; simpl.
    2:{ repeat split; auto. exists []. rewrite app_nil_r. split; simpl; [auto|lia]. }
    destruct (np_iadd p _) as [p'|x]; simpl.
    2:{ repeat split; auto. exists []. rewrite app_nil_r. split; simpl; [auto|lia]. }
    match goal with
    | |- context [boosting_loop cls k X Y p' ?s1] =>
        destruct (IH p' s1) as (Hn & Hd & Hlr & Hv & ens & He & Hlen)
    end.
    simpl in *. repeat split; auto.
    eexists. rewrite He, <- app_assoc. split; [reflexivity|].
    simpl. lia.
Qed.

(** A loop that completes has appended exactly one learner per
    iteration. *)
Lemma boosting_loop_appends (k : nat) (X : list (list num)) (Y : list num) :
  forall (p : list num) (s s' : object),
    boosting_loop cls k X Y p s = (Return tt, s') ->
    length (estimators s') = (length (estimators s) + k)%nat.
Proof.
  induction k as [|k IH]; intros p s s'; simpl.
  - intros [= <-]. lia.
  - run_monad.
    destruct (_compute_residuals cls Y p) as [r|x]; [|discriminate].
    destruct (np_iadd p _) as [p'|x]; [|discriminate].
    intros H. apply IH in H. simpl in H. rewrite H, length_app. simpl. lia.
Qed.

Lemma fit_appends (X : list (list num)) (Y : list num) (s s' : object) :
  fit cls X Y s = (Return tt, s') ->
  length (estimators s') =
  (length (estimators s) + Z.to_nat (n_estimators s))%nat.
Proof.
  unfold fit. run_monad. intros H.
  apply boosting_loop_appends in H. exact H.
Qed.

(** [fit] starts by overwriting [initial_prediction]: its effect does not
    depend on the value found there. *)
Lemma fit_reads (X : list (list num)) (Y : list num) (s1 s2 : object) :
  estimators s1 = estimators s2 ->
  n_estimators s1 = n_estimators s2 ->
  max_depth s1 = max_depth s2 ->
  learning_rate s1 = learning_rate s2 ->
  fit cls X Y s1 = fit cls X Y s2.
Proof.
  intros He Hn Hd Hlr. unfold fit. run_monad.
  now rewrite He, Hn, Hd, Hlr.
Qed.
End EngineFacts.

(** * The two loops, unrolled *)

Section Loops.
Context {num tree : Type} {ops : NumOps num}
        {learner : DecisionTreeRegressor num tree}.
Variable cls : AbstractMethods num.

Local Abbreviation object := (GradientBoostingTree num tree).

(** One in-place update of the working vector, entry by entry. *)
Lemma update_pointwise (p q : list num) (lr : num) :
  length q = length p ->
  exists p', np_iadd p (np_scale lr q) = Return p' /\
             length p' = length p /\
             forall j, (j < length p)%nat ->
               nth j p' (of_Z 0) =
               fadd (nth j p (of_Z 0)) (fmul lr (nth j q (of_Z 0))).
Proof.
  intros Hq.
  assert (Hs : length p = length (np_scale lr q))
    by (now rewrite np_scale_length).
  exists (zip_with fadd p (np_scale lr q)). split; [|split].
  - now apply np_iadd_same_shape.
  - now apply zip_with_length.
  - intros j Hj. rewrite zip_with_nth by assumption.
    rewrite np_scale_nth by lia. reflexivity.
Qed.

Lemma accumulate_scores (X : list (list num)) (s : object) :
  forall (ens : list tree) (p : list num),
    (forall e, In e ens -> length (tree_predict e X) = length p) ->
    exists p', accumulate ens X p s = (Return p', s) /\
               length p' = length p /\
               forall j, (j < length p)%nat ->
                 nth j p' (of_Z 0) =
                 raw_score (learning_rate s) X (nth j p (of_Z 0)) ens j.
Proof.
  induction ens as [|e ens IH]; intros p Hrows; simpl.
  - exists p. repeat split; auto.
  - destruct (update_pointwise p (tree_predict e X) (learning_rate s))
      as (p1 & E1 & L1 & N1).
    { apply Hrows. now left. }
    destruct (IH p1) as (p' & E' & L' & N').
    { intros e' He'. rewrite L1. apply Hrows. now right. }
    exists p'. run_monad. rewrite E1, E'. repeat split; [congruence|].
    intros j Hj. rewrite N' by lia. unfold raw_score. simpl.
    now rewrite N1.
Qed.

Lemma boosting_loop_rounds (X : list (list num)) (Y : list num) (v : num) :
  (forall e, length (tree_predict e X) = length Y) ->
  (forall p, length p = length Y ->
             exists r, _compute_residuals cls Y p = Return r) ->
  forall (k i : nat) (p : list num) (ens : list tree) (s : object),
    rounds cls (max_depth s) (learning_rate s) X Y v i p ens ->
    length p = length Y ->
    exists p' ens',
      rounds cls (max_depth s) (learning_rate s) X Y v (i + k) p'
             (ens ++ ens') /\
      length ens' = k /\
      boosting_loop cls k X Y p s =
      (Return tt,
       {| estimators := estimators s ++ ens';
          max_depth := max_depth s;
          n_estimators := n_estimators s;
          learning_rate := learning_rate s;
          initial_prediction := initial_prediction s |}).
Proof.
  intros Hrows Hres.
  induction k as [|k IH]; intros i p ens s Hr Hp; simpl.
  - exists p, []. rewrite !app_nil_r, Nat.add_0_r.
    repeat split; auto. now destruct s.
  - destruct (Hres p Hp) as [r Er].
    set (e := tree_fit (max_depth s) X r).
    destruct (update_pointwise p (tree_predict e X) (learning_rate s))
      as (p1 & E1 & L1 & N1).
    { now rewrite Hrows. }
    set (s1 := {| estimators := estimators s ++ [e];
                  max_depth := max_depth s;
                  n_estimators := n_estimators s;
                  learning_rate := learning_rate s;
                  initial_prediction := initial_prediction s |}).
    destruct (IH (S i) p1 (ens ++ [e]) s1) as (p' & ens' & R' & Len' & E').
    { simpl. eapply rounds_step; eauto. }
    { congruence. }
    exists p', (e :: ens'). simpl in R', E'.
    rewrite <- app_assoc in R'. simpl in R'.
    rewrite <- app_assoc in E'. simpl in E'.
    rewrite Nat.add_succ_r. repeat split; [exact R' | simpl; lia |].
    run_monad. rewrite Er. fold e. rewrite E1. exact E'.
Qed.
End Loops.

(** * The engine *)

Section EngineTheorems.
Context {num tree : Type} {ops : NumOps num}
        {learner : DecisionTreeRegressor num tree}.
Variable cls : AbstractMethods num.

Local Abbreviation object := (GradientBoostingTree num tree).

(** C1.  On [N] samples, [fit X Y] stores [_initial_prediction Y], starts
    from a working vector of [N] copies of it, and runs exactly
    [n_estimators] rounds; each round computes the residuals of the current
    vector, fits a new learner on [(X, residuals)], adds [learning_rate]
    times that learner's prediction to every entry, and appends the learner
    to [estimators].  The learner is assumed to return one prediction per
    row and the policy to accept vectors of the targets' length. *)
Theorem fit_runs_boosting_rounds
        (X : list (list num)) (Y : list num) (s : object) :
  length X = length Y ->
  (forall e, length (tree_predict e X) = length X) ->
  (forall p, length p = length Y ->
             exists r, _compute_residuals cls Y p = Return r) ->
  (0 <= n_estimators s)%Z ->
  exists p ens,
    rounds cls (max_depth s) (learning_rate s) X Y
           (_initial_prediction cls Y) (Z.to_nat (n_estimators s)) p ens /\
    Z.of_nat (length ens) = n_estimators s /\
    fit cls X Y s =
    (Return tt,
     {| estimators := estimators s ++ ens;
        max_depth := max_depth s;
        n_estimators := n_estimators s;
        learning_rate := learning_rate s;
        initial_prediction := Some (_initial_prediction cls Y) |}).
Proof.
  intros HXY Hrows Hres Hn.
  set (v := _initial_prediction cls Y).
  set (s0 := {| estimators := estimators s;
                max_depth := max_depth s;
                n_estimators := n_estimators s;
                learning_rate := learning_rate s;
                initial_prediction := Some v |}).
  destruct (@boosting_loop_rounds num tree ops learner cls X Y v)
    with (k := Z.to_nat (n_estimators s)) (i := 0%nat)
         (p := np_full (length Y) v) (ens := @nil tree) (s := s0)
    as (p & ens & R & L & E).
  - intros e. now rewrite Hrows.
  - exact Hres.
  - apply rounds_start.
    + apply np_full_length.
    + intros j Hj. now apply np_full_nth.
  - apply np_full_length.
  - exists p, ens. simpl in R, E. repeat split.
    + exact R.
    + rewrite L. now apply Z2Nat.id.
    + unfold fit. run_monad. exact E.
Qed.

(** C2.  On a fitted object and a matrix of [K] rows, [predict] returns [K]
    entries; entry [j] is [_interpret_prediction] applied once to the raw
    score of row [j]: the initial prediction plus, for each learner in
    insertion order, [learning_rate] times that learner's prediction for
    row [j]. *)
Theorem predict_interprets_raw_scores
        (X : list (list num)) (s : object) (v : num) :
  initial_prediction s = Some v ->
  (forall e, In e (estimators s) -> length (tree_predict e X) = length X) ->
  exists out,
    predict cls X s = (Return out, s) /\
    length out = length X /\
    forall j, (j < length X)%nat ->
      nth j out (of_Z 0) =
      _interpret_prediction cls
        (raw_score (learning_rate s) X v (estimators s) j).
Proof.
  intros Hv Hrows.
  destruct (@accumulate_scores num tree ops learner X s (estimators s)
              (np_full (length X) v)) as (p & E & L & N).
  { intros e He. rewrite np_full_length. now apply Hrows. }
  rewrite np_full_length in L, N.
  exists (map (_interpret_prediction cls) p). split; [|split].
  - unfold predict. run_monad. rewrite Hv, E. reflexivity.
  - now rewrite length_map.
  - intros j Hj. rewrite map_nth_lt by lia. rewrite N by assumption.
    now rewrite np_full_nth.
Qed.

(** C8.  With the weak learner a function of its arguments: two objects
    that agree on the hyperparameters and on the ensemble they start from
    behave alike under [fit] followed by [predict], whatever
    [initial_prediction] held before; the value of [predict] depends on
    [estimators], [initial_prediction], [learning_rate] and the argument
    only; and a second [predict] on the same argument returns what the
    first returned. *)
Theorem fit_predict_deterministic
        (X : list (list num)) (Y : list num) (X' : list (list num))
        (s1 s2 : object) :
  estimators s1 = estimators s2 ->
  learning_rate s1 = learning_rate s2 ->
  (n_estimators s1 = n_estimators s2 -> max_depth s1 = max_depth s2 ->
   fst (fit cls X Y s1) = fst (fit cls X Y s2) /\
   fst (predict cls X' (snd (fit cls X Y s1))) =
   fst (predict cls X' (snd (fit cls X Y s2)))) /\
  (initial_prediction s1 = initial_prediction s2 ->
   fst (predict cls X' s1) = fst (predict cls X' s2)) /\
  fst (predict cls X' (snd (predict cls X' s1))) = fst (predict cls X' s1).
Proof.
  intros He Hlr. split; [|split].
  - intros Hn Hd. now rewrite (fit_reads cls X Y s1 s2).
  - intros Hv. now apply predict_reads.
  - now rewrite predict_state.
Qed.

(** C9.  On an object that has only been constructed, [predict] raises
    [AttributeError] (the attribute [initial_prediction] does not exist
    yet) and leaves the object as constructed. *)
Theorem predict_before_fit_raises
        (n d : Z) (lr : num) (X : list (list num)) :
  predict cls X (__init__ n d lr) =
  (Raise AttributeError, __init__ n d lr : object).
Proof. reflexivity. Qed.

(** C10.  [predict] returns the object exactly as it received it, and
    [fit] leaves [n_estimators], [max_depth] and [learning_rate] as they
    were, whether the call completes or raises. *)
Theorem predict_and_fit_frame
        (X : list (list num)) (Y : list num) (s : object) :
  snd (predict cls X s) = s /\
  n_estimators (snd (fit cls X Y s)) = n_estimators s /\
  max_depth (snd (fit cls X Y s)) = max_depth s /\
  learning_rate (snd (fit cls X Y s)) = learning_rate s.
Proof.
  split; [apply predict_state|].
  unfold fit. run_monad.
  match goal with
  | |- context [boosting_loop cls ?k X Y ?p ?s0] =>
      destruct (boosting_loop_frame cls k X Y p s0) as (Hn & Hd & Hlr & _)
  end.
  simpl in *. auto.
Qed.
End EngineTheorems.

(** * The loss policies *)

Section PolicyFacts.
Context {num : Type} {ops : NumOps num}.

Lemma regressor_residuals (Y P : list num) :
  length Y = length P ->
  exists r,
    _compute_residuals GradientBoostingRegressor Y P = Return r /\
    length r = length Y /\
    forall j, (j < length Y)%nat ->
      nth j r (of_Z 0) = fsub (nth j Y (of_Z 0)) (nth j P (of_Z 0)).
Proof.
  intros HYP. exists (zip_with fsub Y P). split; [|split].
  - now apply np_binop_same_shape.
  - now apply zip_with_length.
  - intros j Hj. now apply zip_with_nth.
Qed.

Context {funs : NumFun num}.

Lemma classifier_residuals (Y P : list num) :
  length Y = length P ->
  exists r,
    _compute_residuals GradientBoostingClassifier Y P = Return r /\
    length r = length Y /\
    forall j, (j < length Y)%nat ->
      nth j r (of_Z 0) =
      fsub (nth j Y (of_Z 0)) (sigmoid (nth j P (of_Z 0))).
Proof.
  intros HYP.
  assert (HS : length Y = length (map sigmoid P))
    by (now rewrite length_map).
  exists (zip_with fsub Y (map sigmoid P)). split; [|split].
  - now apply np_binop_same_shape.
  - now apply zip_with_length.
  - intros j Hj. rewrite zip_with_nth by assumption.
    rewrite map_nth_lt by lia. reflexivity.
Qed.
End PolicyFacts.

(** ** Over the reals *)

Local Open Scope R_scope.

Lemma sigmoid_R (x : R) : @sigmoid R R_ops R_fun x = 1 / (1 + exp (- x)).
Proof. reflexivity. Qed.

Lemma sigmoid_bounds (x : R) : 0 < @sigmoid R R_ops R_fun x < 1.
Proof.
  rewrite sigmoid_R. pose proof (exp_pos (- x)) as He. split.
  - apply Rdiv_lt_0_compat; lra.
  - apply (Rmult_lt_reg_r (1 + exp (- x))); [lra|].
    replace (1 / (1 + exp (- x)) * (1 + exp (- x))) with 1 by (field; lra).
    lra.
Qed.

Lemma Int_part_unit (s : R) : 0 <= s < 1 -> Int_part s = 0%Z.
Proof.
  intros Hs. symmetry. apply Int_part_spec. simpl. lra.
Qed.

Lemma round_half_even_unit (s : R) :
  0 <= s < 1 ->
  round_half_even s = if Rlt_dec (1 / 2) s then 1 else 0.
Proof.
  intros Hs. unfold round_half_even. rewrite (Int_part_unit Hs). simpl.
  replace (s - 0) with s by ring.
  destruct (Rlt_dec s (1 / 2)), (Rlt_dec (1 / 2) s); try reflexivity; lra.
Qed.

(** The exact reals satisfy the laws of rounding. *)
Lemma round_half_even_one : round_half_even 1 = 1.
Proof.
  unfold round_half_even.
  assert (H : Int_part 1 = 1%Z).
  { symmetry. apply Int_part_spec. simpl. lra. }
  rewrite H. simpl.
  destruct (Rlt_dec (1 - 1) (1 / 2)); [reflexivity | lra].
Qed.

Lemma R_rounding_laws : RoundingLaws R_ops R_fun Rle Rlt.
Proof.
  split; simpl.
  - intros e He. lra.
  - intros d Hd.
    destruct (Rtotal_order (1 / d) (1 / 2)) as [H | [H | H]]; auto.
  - intros d Hd Hlt.
    assert (H0 : 0 < 1 / d) by (apply Rdiv_lt_0_compat; lra).
    rewrite round_half_even_unit by lra.
    destruct (Rlt_dec (1 / 2) (1 / d)); [lra | reflexivity].
  - intros d Hd Hlt.
    destruct Hd as [Hd | <-].
    + assert (H1 : 1 / d < 1).
      { apply (Rmult_lt_reg_r d); [lra|].
        replace (1 / d * d) with 1 by (field; lra). lra. }
      rewrite round_half_even_unit by lra.
      destruct (Rlt_dec (1 / 2) (1 / d)); [reflexivity | lra].
    + replace (1 / 1) with 1 by field. apply round_half_even_one.
  - rewrite round_half_even_unit by lra.
    destruct (Rlt_dec (1 / 2) (1 / 2)); [lra | reflexivity].
Qed.

(** ** Binary64 *)

Lemma SFcompare_same_finite (s : bool) (m : positive) (e : Z) :
  SpecFloat.SFcompare (SpecFloat.S754_finite s m e)
                      (SpecFloat.S754_finite s m e) = Some Eq.
Proof.
  simpl. destruct s; rewrite Z.compare_refl, Pos.compare_cont_refl;
    reflexivity.
Qed.

(** Nothing is below or equal to a nan. *)
Lemma leb_nan_r (x m : PrimFloat.float) :
  PrimFloat.is_nan m = true -> PrimFloat.leb x m = false.
Proof.
  unfold PrimFloat.is_nan.
  rewrite FloatAxioms.leb_spec, FloatAxioms.eqb_spec.
  unfold SpecFloat.SFleb, SpecFloat.SFeqb.
  destruct (FloatOps.Prim2SF m) as [sm | sm | | sm mm em].
  - destruct sm; simpl; intros H; discriminate H.
  - destruct sm; simpl; intros H; discriminate H.
  - intros _. destruct (FloatOps.Prim2SF x); reflexivity.
  - rewrite SFcompare_same_finite. intros H; discriminate H.
Qed.

Lemma F_clip_cases (lo hi m : PrimFloat.float) :
  PrimFloat.is_nan hi = false ->
  PrimFloat.leb hi lo = false ->
  F_minimum hi (F_maximum m lo) =
  if PrimFloat.is_nan m then m
  else if PrimFloat.leb lo m
       then (if PrimFloat.leb hi m then hi else m)
       else lo.
Proof.
  intros Hhi Hlo. unfold F_minimum, F_maximum. rewrite Hhi, !orb_false_r.
  destruct (PrimFloat.is_nan m) eqn:Hm.
  - rewrite orb_true_r. now rewrite (leb_nan_r hi m Hm).
  - rewrite orb_false_r. destruct (PrimFloat.leb lo m); [reflexivity|].
    now rewrite Hlo.
Qed.

(** ** The policies *)



(** C6.  The regressor, in any arithmetic: on vectors of equal length the
    residual of entry [j] is [Y[j] - P[j]]; the initial prediction is the
    sum of the targets divided by their number; [_interpret_prediction]
    returns its argument. *)
Theorem regression_policy :
  forall (num : Type) (ops : NumOps num),
    (forall Y P : list num,
        length Y = length P ->
        exists r,
          _compute_residuals GradientBoostingRegressor Y P = Return r /\
          length r = length Y /\
          forall j, (j < length Y)%nat ->
            nth j r (of_Z 0) = fsub (nth j Y (of_Z 0)) (nth j P (of_Z 0))) /\
    (forall Y : list num,
        _initial_prediction GradientBoostingRegressor Y =
        fdiv (fsum Y) (of_Z (Z.of_nat (length Y)))) /\
    (forall x : num, _interpret_prediction GradientBoostingRegressor x = x).
Proof.
  intros num ops. split; [|split].
  - intros Y P. apply regressor_residuals.
  - reflexivity.
  - reflexivity.
Qed.

(** C7.  The classifier: on vectors of equal length the residual of entry
    [j] is [Y[j] - 1 / (1 + exp (- P[j]))]; the prediction vector is an
    argument of the computation and is used as a logit, the subtracted
    term being, over the reals, a probability strictly between 0 and 1. *)
Theorem classification_residuals :
  (forall (num : Type) (ops : NumOps num) (funs : NumFun num)
          (Y P : list num),
      length Y = length P ->
      exists r,
        _compute_residuals GradientBoostingClassifier Y P = Return r /\
        length r = length Y /\
        forall j, (j < length Y)%nat ->
          nth j r (of_Z 0) =
          fsub (nth j Y (of_Z 0))
               (fdiv (of_Z 1)
                     (fadd (of_Z 1) (np_exp (fneg (nth j P (of_Z 0))))))) /\
  (forall x : R,
      @sigmoid R R_ops R_fun x = 1 / (1 + exp (- x)) /\
      0 < @sigmoid R R_ops R_fun x < 1).
Proof.
  split.
  - intros num ops funs Y P. apply classifier_residuals.
  - intros x. split; [reflexivity | apply sigmoid_bounds].
Qed.

(** * The engine on a concrete training set *)

(** C3.  What the code does when [fit] is called twice on an object built
    with [n_estimators = 1]: the first call leaves one learner and [predict]
    reproduces the targets; the second call, on the same data, completes,
    keeps the learner of the first call and appends another, so the ensemble
    has two learners and [predict] no longer returns what it returned
    before. *)
Theorem refit_keeps_prior_ensemble :
  let s0 := Q_init 1 1 1%Q in
  let s1 := snd (Q_fit demo_X demo_Y s0) in
  let s2 := snd (Q_fit demo_X demo_Y s1) in
  fst (Q_fit demo_X demo_Y s0) = Return tt /\
  length (estimators s1) = 1%nat /\
  fst (Q_predict demo_X s1) = Return [2%Q; 4%Q] /\
  fst (Q_fit demo_X demo_Y s1) = Return tt /\
  n_estimators s2 = 1%Z /\
  length (estimators s2) = 2%nat /\
  firstn 1 (estimators s2) = estimators s1 /\
  fst (Q_predict demo_X s2) = Return [1%Q; 5%Q].
Proof. vm_compute. repeat split. Qed.

Lemma fit_runs_boosting_rounds_witness :
  let s := Q_init 2 1 (1 # 2)%Q in
  length demo_X = length demo_Y /\
  (0 <= n_estimators s)%Z /\
  exists p ens,
    @rounds Q (list Q) Q_ops (@Memorizer Q Q_ops) Q_regressor
            (max_depth s) (learning_rate s) demo_X demo_Y
            (_initial_prediction Q_regressor demo_Y)
            (Z.to_nat (n_estimators s)) p ens /\
    Z.of_nat (length ens) = n_estimators s /\
    Q_fit demo_X demo_Y s =
    (Return tt,
     {| estimators := estimators s ++ ens;
        max_depth := max_depth s;
        n_estimators := n_estimators s;
        learning_rate := learning_rate s;
        initial_prediction := Some (_initial_prediction Q_regressor demo_Y) |}).
Proof.
  intros s. split; [reflexivity|]. split; [simpl; lia|].
  apply (@fit_runs_boosting_rounds Q (list Q) Q_ops (@Memorizer Q Q_ops)
           Q_regressor demo_X demo_Y s).
  - reflexivity.
  - intros e. reflexivity.
  - intros p Hp.
    destruct (@regressor_residuals Q Q_ops demo_Y p (eq_sym Hp))
      as (r & Hr & _).
    exists r. exact Hr.
  - simpl. lia.
Defined.

Lemma predict_interprets_raw_scores_witness :
  initial_prediction demo_fitted = Some 3%Q /\
  exists out,
    Q_predict demo_X demo_fitted = (Return out, demo_fitted) /\
    length out = length demo_X /\
    forall j, (j < length demo_X)%nat ->
      nth j out (@of_Z Q Q_ops 0) =
      _interpret_prediction Q_regressor
        (@raw_score Q (list Q) Q_ops (@Memorizer Q Q_ops)
           (learning_rate demo_fitted) demo_X 3%Q (estimators demo_fitted) j).
Proof.
  split; [reflexivity|].
  apply (@predict_interprets_raw_scores Q (list Q) Q_ops (@Memorizer Q Q_ops)
           Q_regressor demo_X demo_fitted 3%Q).
  - reflexivity.
  - intros e _. reflexivity.
Defined.

Lemma fit_predict_deterministic_witness :
  let s1 := Q_init 2 1 (1 # 2)%Q in
  let s2 := {| estimators := [];
               max_depth := 1;
               n_estimators := 2;
               learning_rate := (1 # 2)%Q;
               initial_prediction := Some 7%Q |} in
  fst (Q_predict demo_X (snd (Q_fit demo_X demo_Y s1))) =
  fst (Q_predict demo_X (snd (Q_fit demo_X demo_Y s2))) /\
  fst (Q_predict demo_X (snd (Q_predict demo_X demo_fitted))) =
  fst (Q_predict demo_X demo_fitted).
Proof.
  intros s1 s2. split.
  - apply (proj1 (@fit_predict_deterministic Q (list Q) Q_ops
                    (@Memorizer Q Q_ops) Q_regressor demo_X demo_Y demo_X
                    s1 s2 eq_refl eq_refl) eq_refl eq_refl).
  - apply (proj2 (proj2 (@fit_predict_deterministic Q (list Q) Q_ops
                    (@Memorizer Q Q_ops) Q_regressor demo_X demo_Y demo_X
                    demo_fitted demo_fitted eq_refl eq_refl))).
Defined.



Lemma regression_policy_witness :
  length [2; 4] = length [3; 3] /\
  exists r,
    _compute_residuals (@GradientBoostingRegressor R R_ops) [2; 4] [3; 3] =
    Return r /\
    length r = 2%nat /\
    forall j, (j < 2)%nat -> nth j r 0 = nth j [2; 4] 0 - nth j [3; 3] 0.
Proof.
  split; [reflexivity|].
  apply (proj1 (regression_policy R_ops) [2; 4] [3; 3] eq_refl).
Defined.

Lemma classification_residuals_witness :
  length [1; 0] = length [0; 0] /\
  exists r,
    _compute_residuals R_classifier [1; 0] [0; 0] = Return r /\
    length r = 2%nat /\
    forall j, (j < 2)%nat ->
      nth j r 0 = nth j [1; 0] 0 - 1 / (1 + exp (- nth j [0; 0] 0)).
Proof.
  split; [reflexivity|].
  apply (proj1 classification_residuals R R_ops R_fun [1; 0] [0; 0] eq_refl).
Defined.

(** * Further behaviour of [fit] and [predict] *)

Local Close Scope R_scope.

Section ShapeFacts.
Context {num : Type} {ops : NumOps num}.

Lemma np_iadd_mismatch (a b : list num) :
  length a <> length b -> length b <> 1%nat ->
  np_iadd a b = Raise ValueError.
Proof.
  intros Hab Hb. unfold np_iadd.
  destruct (Nat.eqb_spec (length a) (length b)) as [E|_]; [contradiction|].
  destruct b as [|y [|z b]]; simpl in *; congruence.
Qed.

End ShapeFacts.

Section EngineEdges.
Context {num tree : Type} {ops : NumOps num}
        {learner : DecisionTreeRegressor num tree}.
Variable cls : AbstractMethods num.

Local Abbreviation object := (GradientBoostingTree num tree).

Lemma after_fit_nil (s : object) (v : num) :
  after_fit s v [] =
  {| estimators := estimators s;
     max_depth := max_depth s;
     n_estimators := n_estimators s;
     learning_rate := learning_rate s;
     initial_prediction := Some v |}.
Proof. unfold after_fit. now rewrite app_nil_r. Qed.

(** X1.  [fit] is not atomic.  Whether it completes or raises, the object
    it leaves holds the new initial prediction, and its ensemble is the
    previous one followed by the learners of the completed rounds, at most
    [n_estimators] of them; no learner is ever removed. *)
Theorem fit_leaves_new_prediction_and_only_appends
        (X : list (list num)) (Y : list num) (s : object) :
  exists ens,
    snd (fit cls X Y s) = after_fit s (_initial_prediction cls Y) ens /\
    (length ens <= Z.to_nat (n_estimators s))%nat.
Proof.
  unfold fit. run_monad.
  match goal with
  | |- context [boosting_loop cls ?k X Y ?p ?s0] =>
      destruct (boosting_loop_frame cls k X Y p s0)
        as (Hn & Hd & Hlr & Hv & ens & He & Hlen);
      destruct (boosting_loop cls k X Y p s0) as [o s'] eqn:E
  end.
  simpl in *. exists ens. split; [|exact Hlen].
  unfold after_fit. destruct s'; simpl in *. congruence.
Qed.

(** X2.  With [n_estimators <= 0] the loop of [fit] does not run: [fit]
    completes on any [X] and [Y], whatever their shapes, and only stores the
    initial prediction.  If the ensemble was empty, [predict] then returns
    the interpreted initial prediction for every row. *)
Theorem fit_without_rounds
        (X : list (list num)) (Y : list num) (s : object) :
  (n_estimators s <= 0)%Z ->
  estimators s = [] ->
  let v := _initial_prediction cls Y in
  fit cls X Y s = (Return tt, after_fit s v []) /\
  forall X' : list (list num),
    fst (predict cls X' (after_fit s v [])) =
    Return (repeat (_interpret_prediction cls v) (length X')).
Proof.
  intros Hn He v. split.
  - unfold fit. run_monad.
    replace (Z.to_nat (n_estimators s)) with 0%nat by lia.
    simpl. now rewrite after_fit_nil.
  - intros X'. unfold predict, after_fit. run_monad. rewrite He. simpl.
    unfold np_full. now rewrite map_repeat.
Qed.

(** X3.  When the number of rows of [X] differs from the number of targets
    (and is not one) and at least one round is due, [fit] raises
    [ValueError] at the first update of the working vector.  The learner
    fitted in that round is not appended, but the initial prediction has
    already been replaced. *)
Theorem fit_shape_mismatch_raises
        (X : list (list num)) (Y : list num) (s : object) :
  length X <> length Y ->
  length X <> 1%nat ->
  (0 < n_estimators s)%Z ->
  (forall e, length (tree_predict e X) = length X) ->
  (forall p, length p = length Y ->
             exists r, _compute_residuals cls Y p = Return r) ->
  fit cls X Y s = (Raise ValueError, after_fit s (_initial_prediction cls Y) []).
Proof.
  intros HXY HX1 Hn Hrows Hres.
  set (v := _initial_prediction cls Y).
  destruct (Hres (np_full (length Y) v) (np_full_length _ _)) as [r Er].
  unfold fit. run_monad.
  destruct (Z.to_nat (n_estimators s)) as [|k] eqn:Ek; [lia|].
  simpl. run_monad. fold v. rewrite Er.
  rewrite np_iadd_mismatch.
  - now rewrite after_fit_nil.
  - rewrite np_full_length, np_scale_length, Hrows. congruence.
  - now rewrite np_scale_length, Hrows.
Qed.

Lemma np_iadd_stretch_pointwise (a : list num) (y : num) :
  exists r,
    np_iadd a [y] = Return r /\
    length r = length a /\
    forall j, (j < length a)%nat ->
      nth j r (of_Z 0) = fadd (nth j a (of_Z 0)) y.
Proof.
  unfold np_iadd. destruct (Nat.eqb_spec (length a) (length [y])) as [E|E].
  - destruct a as [|x [|x' a]]; try discriminate.
    exists [fadd x y]. repeat split.
    intros [|j] Hj; simpl in *; [reflexivity | lia].
  - exists (map (fun x => fadd x y) a). split; [reflexivity|].
    split; [apply length_map|].
    intros j Hj. now rewrite map_nth_lt.
Qed.

Lemma boosting_loop_single_row (X : list (list num)) (Y : list num)
      (v : num) :
  (forall e, length (tree_predict e X) = 1%nat) ->
  (forall p, length p = length Y ->
             exists r, _compute_residuals cls Y p = Return r) ->
  forall (k i : nat) (p : list num) (ens : list tree) (s : object),
    rounds_single_row cls (max_depth s) (learning_rate s) X Y v i p ens ->
    length p = length Y ->
    exists p' ens',
      rounds_single_row cls (max_depth s) (learning_rate s) X Y v (i + k) p'
                        (ens ++ ens') /\
      length ens' = k /\
      boosting_loop cls k X Y p s =
      (Return tt,
       {| estimators := estimators s ++ ens';
          max_depth := max_depth s;
          n_estimators := n_estimators s;
          learning_rate := learning_rate s;
          initial_prediction := initial_prediction s |}).
Proof.
  intros Hrows Hres.
  induction k as [|k IH]; intros i p ens s Hr Hp; simpl.
  - exists p, []. rewrite !app_nil_r, Nat.add_0_r.
    repeat split; auto. now destruct s.
  - destruct (Hres p Hp) as [r Er].
    set (e := tree_fit (max_depth s) X r).
    destruct (tree_predict e X) as [|y [|y' q]] eqn:Eq;
      try (pose proof (Hrows e) as Hq; rewrite Eq in Hq; discriminate Hq).
    destruct (np_iadd_stretch_pointwise p (fmul (learning_rate s) y))
      as (p1 & E1 & L1 & N1).
    set (s1 := {| estimators := estimators s ++ [e];
                  max_depth := max_depth s;
                  n_estimators := n_estimators s;
                  learning_rate := learning_rate s;
                  initial_prediction := initial_prediction s |}).
    destruct (IH (S i) p1 (ens ++ [e]) s1) as (p' & ens' & R' & Len' & E').
    { simpl. eapply single_row_step; eauto.
      intros j Hj. rewrite N1 by assumption. now rewrite Eq. }
    { congruence. }
    exists p', (e :: ens'). simpl in R', E'.
    rewrite <- app_assoc in R'. simpl in R'.
    rewrite <- app_assoc in E'. simpl in E'.
    rewrite Nat.add_succ_r. repeat split; [exact R' | simpl; lia |].
    run_monad. rewrite Er. fold e. rewrite Eq. simpl np_scale.
    rewrite E1. exact E'.
Qed.

(** X4.  A feature matrix of exactly one row is accepted with any number of
    targets: [fit] completes, and in each of its [n_estimators] rounds the
    single prediction of the new learner, times the learning rate, is added
    to every entry of the working vector. *)
Theorem fit_single_row_is_stretched
        (X : list (list num)) (Y : list num) (s : object) :
  length X = 1%nat ->
  (0 <= n_estimators s)%Z ->
  (forall e, length (tree_predict e X) = length X) ->
  (forall p, length p = length Y ->
             exists r, _compute_residuals cls Y p = Return r) ->
  exists p ens,
    rounds_single_row cls (max_depth s) (learning_rate s) X Y
                      (_initial_prediction cls Y)
                      (Z.to_nat (n_estimators s)) p ens /\
    Z.of_nat (length ens) = n_estimators s /\
    fit cls X Y s = (Return tt, after_fit s (_initial_prediction cls Y) ens).
Proof.
  intros HX Hn Hrows Hres.
  set (v := _initial_prediction cls Y).
  set (s0 := {| estimators := estimators s;
                max_depth := max_depth s;
                n_estimators := n_estimators s;
                learning_rate := learning_rate s;
                initial_prediction := Some v |}).
  destruct (@boosting_loop_single_row X Y v) with
    (k := Z.to_nat (n_estimators s)) (i := 0%nat)
    (p := np_full (length Y) v) (ens := @nil tree) (s := s0)
    as (p & ens & R & Len & E).
  - intros e. now rewrite Hrows.
  - exact Hres.
  - apply single_row_start.
    + apply np_full_length.
    + intros j Hj. now apply np_full_nth.
  - apply np_full_length.
  - exists p, ens. simpl in R, E. split; [exact R|]. split; [lia|].
    unfold fit. run_monad. exact E.
Qed.
End EngineEdges.

Section TrainingScores.
Context {num tree : Type} {ops : NumOps num}
        {learner : DecisionTreeRegressor num tree}.
Variable cls : AbstractMethods num.

Local Abbreviation object := (GradientBoostingTree num tree).

Lemma raw_score_snoc (lr : num) (X : list (list num)) (v : num)
      (ens : list tree) (e : tree) (j : nat) :
  raw_score lr X v (ens ++ [e]) j =
  fadd (raw_score lr X v ens j) (fmul lr (nth j (tree_predict e X) (of_Z 0))).
Proof. unfold raw_score. now rewrite fold_left_app. Qed.

(** The working vector of [fit] holds, entry by entry, the raw score of the
    learners fitted so far. *)
Lemma rounds_scores (d : Z) (lr : num) (X : list (list num)) (Y : list num)
      (v : num) (i : nat) (p : list num) (ens : list tree) :
  rounds cls d lr X Y v i p ens ->
  length p = length Y /\
  forall j, (j < length Y)%nat ->
    nth j p (of_Z 0) = raw_score lr X v ens j.
Proof.
  induction 1 as [p Hlen Hnth | i p ens r e p' _ [IHl IHn] _ He Hlen Hnth].
  - split; [exact Hlen | exact Hnth].
  - split; [congruence|].
    intros j Hj. rewrite Hnth by lia. rewrite IHn by assumption.
    subst e. now rewrite raw_score_snoc.
Qed.

Lemma predict_from_accumulate (X : list (list num)) (s : object) (v : num)
      (q : list num) :
  initial_prediction s = Some v ->
  accumulate (estimators s) X (np_full (length X) v) s = (Return q, s) ->
  predict cls X s = (Return (map (_interpret_prediction cls) q), s).
Proof.
  intros Hv E. unfold predict. run_monad. rewrite Hv, E. reflexivity.
Qed.

(** X5.  [fit] and [predict] agree on the training data: after a completed
    [fit] on an object whose ensemble was empty, [predict] on the training
    matrix returns the interpretation, entry by entry, of the working
    vector on which [fit] ended. *)
Theorem predict_after_fit_returns_training_predictions
        (X : list (list num)) (Y : list num) (s : object) :
  estimators s = [] ->
  length X = length Y ->
  (forall e, length (tree_predict e X) = length X) ->
  (forall p, length p = length Y ->
             exists r, _compute_residuals cls Y p = Return r) ->
  let v := _initial_prediction cls Y in
  exists p ens,
    rounds cls (max_depth s) (learning_rate s) X Y v
           (Z.to_nat (n_estimators s)) p ens /\
    fit cls X Y s = (Return tt, after_fit s v ens) /\
    predict cls X (after_fit s v ens) =
    (Return (map (_interpret_prediction cls) p), after_fit s v ens).
Proof.
  intros Hnil HXY Hrows Hres v.
  set (s0 := {| estimators := estimators s;
                max_depth := max_depth s;
                n_estimators := n_estimators s;
                learning_rate := learning_rate s;
                initial_prediction := Some v |}).
  destruct (@boosting_loop_rounds num tree ops learner cls X Y v)
    with (k := Z.to_nat (n_estimators s)) (i := 0%nat)
         (p := np_full (length Y) v) (ens := @nil tree) (s := s0)
    as (p & ens & R & L & E).
  - intros e. now rewrite Hrows.
  - exact Hres.
  - apply rounds_start.
    + apply np_full_length.
    + intros j Hj. now apply np_full_nth.
  - apply np_full_length.
  - simpl in R, E. exists p, ens. split; [exact R|]. split.
    + unfold fit. run_monad. exact E.
    + destruct (rounds_scores R) as [Lp Np].
      set (s1 := after_fit s v ens).
      destruct (@accumulate_scores num tree ops learner X s1 (estimators s1)
                  (np_full (length X) v)) as (q & Eq & Lq & Nq).
      { intros e _. now rewrite np_full_length. }
      rewrite np_full_length in Lq, Nq.
      assert (Hq : q = p).
      { apply nth_ext with (d := of_Z 0) (d' := of_Z 0); [congruence|].
        intros j Hj. rewrite Nq by lia. rewrite np_full_nth by lia.
        rewrite Np by lia.
        unfold s1, after_fit. simpl. now rewrite Hnil. }
      rewrite <- Hq. now apply predict_from_accumulate with (v := v).
Qed.
End TrainingScores.

(** * One-hot encoding *)

Local Close Scope R_scope.

Lemma nth_map_lt (A B : Type) (g : A -> B) (l : list A) (j : nat)
      (a : A) (b : B) :
  (j < length l)%nat -> nth j (map g l) b = g (nth j l a).
Proof.
  revert j. induction l as [|x l IH]; intros [|j] Hj;
    simpl in *; try lia; auto.
  apply IH; lia.
Qed.

Lemma In_insert_sorted (c x : Z) (l : list Z) :
  In x (insert_sorted c l) <-> x = c \/ In x l.
Proof.
  induction l as [|y l IH]; simpl.
  - intuition.
  - destruct (Z.ltb_spec c y); [simpl; intuition|].
    destruct (Z.eqb_spec c y); simpl.
    + subst. intuition.
    + rewrite IH. intuition.
Qed.

Lemma insert_sorted_sorted (c : Z) (l : list Z) :
  StronglySorted Z.lt l -> StronglySorted Z.lt (insert_sorted c l).
Proof.
  induction 1 as [|y l Hs IH Hall]; simpl.
  - constructor; constructor.
  - destruct (Z.ltb_spec c y) as [Hlt|Hge].
    + constructor; [now constructor|].
      constructor; [exact Hlt|].
      rewrite Forall_forall in Hall |- *. intros x Hx.
      specialize (Hall x Hx). lia.
    + destruct (Z.eqb_spec c y) as [Heq|Hne]; [now constructor|].
      constructor; [exact IH|].
      rewrite Forall_forall in Hall |- *. intros x Hx.
      apply In_insert_sorted in Hx. destruct Hx as [-> | Hx]; [lia|auto].
Qed.

Lemma np_unique_In (Y : list Z) (c : Z) : In c (np_unique Y) <-> In c Y.
Proof.
  unfold np_unique. induction Y as [|y Y IH]; simpl; [tauto|].
  rewrite In_insert_sorted, IH. intuition.
Qed.

Lemma np_unique_sorted (Y : list Z) : StronglySorted Z.lt (np_unique Y).
Proof.
  unfold np_unique. induction Y as [|y Y IH]; simpl; [constructor|].
  now apply insert_sorted_sorted.
Qed.

Lemma sorted_NoDup (l : list Z) : StronglySorted Z.lt l -> NoDup l.
Proof.
  induction 1 as [|y l Hs IH Hall]; constructor; [|exact IH].
  intros Hin. rewrite Forall_forall in Hall. specialize (Hall y Hin). lia.
Qed.

Lemma one_hot_row (Y : list Z) (i : nat) :
  (i < length Y)%nat ->
  nth i (_one_hot_encode Y) [] =
  map (fun c => Z.eqb (nth i Y 0%Z) c) (np_unique Y).
Proof.
  intros Hi. unfold _one_hot_encode, np_transpose.
  rewrite nth_map_lt with (a := 0%nat) by (now rewrite length_seq).
  rewrite seq_nth by assumption. simpl. rewrite map_map.
  apply map_ext. intros c.
  now rewrite nth_map_lt with (a := 0%Z).
Qed.

(** X13.  [_one_hot_encode Y] has one row per sample and one column per
    distinct label, the columns in increasing order of the labels; the
    entry in row [i], column [k] tells whether sample [i] carries the
    [k]-th label. *)
Theorem one_hot_encode_shape_and_entries (Y : list Z) :
  let classes := np_unique Y in
  StronglySorted Z.lt classes /\
  (forall c, In c classes <-> In c Y) /\
  length (_one_hot_encode Y) = length Y /\
  forall i, (i < length Y)%nat ->
    length (nth i (_one_hot_encode Y) []) = length classes /\
    forall k, (k < length classes)%nat ->
      nth k (nth i (_one_hot_encode Y) []) false =
      Z.eqb (nth i Y 0%Z) (nth k classes 0%Z).
Proof.
  intros classes. split; [apply np_unique_sorted|].
  split; [apply np_unique_In|]. split.
  - unfold _one_hot_encode, np_transpose. now rewrite length_map, length_seq.
  - intros i Hi. rewrite one_hot_row by assumption. split.
    + apply length_map.
    + intros k Hk. now rewrite nth_map_lt with (a := 0%Z).
Qed.

(** X14.  Every row of the encoding holds exactly one [true], in the column
    of the sample's own label; reading the label of that column gives the
    sample's label back. *)
Theorem one_hot_encode_one_true_per_row (Y : list Z) (i : nat) :
  (i < length Y)%nat ->
  exists k,
    (k < length (np_unique Y))%nat /\
    nth k (np_unique Y) 0%Z = nth i Y 0%Z /\
    forall k', (k' < length (np_unique Y))%nat ->
      (nth k' (nth i (_one_hot_encode Y) []) false = true <-> k' = k).
Proof.
  intros Hi.
  assert (Hin : In (nth i Y 0%Z) (np_unique Y)).
  { apply np_unique_In. now apply nth_In. }
  destruct (In_nth _ _ 0%Z Hin) as (k & Hk & Ek).
  exists k. split; [exact Hk|]. split; [exact Ek|].
  intros k' Hk'. rewrite one_hot_row by assumption.
  rewrite nth_map_lt with (a := 0%Z) by assumption.
  rewrite Z.eqb_eq. split.
  - intros E.
    pose proof (sorted_NoDup (np_unique_sorted Y)) as Hnd.
    rewrite NoDup_nth with (d := 0%Z) in Hnd.
    apply Hnd; congruence.
  - intros ->. now symmetry.
Qed.

(** * The further properties on concrete inputs *)

Lemma Q_regressor_accepts (Y p : list Q) :
  length p = length Y ->
  exists r, _compute_residuals Q_regressor Y p = Return r.
Proof.
  intros Hp.
  destruct (@regressor_residuals Q Q_ops Y p (eq_sym Hp)) as (r & Hr & _).
  exists r. exact Hr.
Qed.

Lemma fit_without_rounds_witness :
  let X := [[0%Q]; [1%Q]; [5%Q]] in
  let s := Q_init 0 1 (1 # 2)%Q in
  (n_estimators s <= 0)%Z /\
  Q_fit X demo_Y s = (Return tt, after_fit s 3%Q []) /\
  fst (Q_predict X (after_fit s 3%Q [])) = Return [3%Q; 3%Q; 3%Q].
Proof.
  intros X s.
  assert (Hn : (n_estimators s <= 0)%Z) by (simpl; lia).
  destruct (@fit_without_rounds Q (list Q) Q_ops (@Memorizer Q Q_ops)
              Q_regressor X demo_Y s Hn eq_refl) as [Hfit Hpred].
  split; [exact Hn|]. split; [exact Hfit | exact (Hpred X)].
Defined.

Lemma fit_shape_mismatch_raises_witness :
  let X := [[0%Q]; [1%Q]; [5%Q]] in
  let s := Q_init 2 1 (1 # 2)%Q in
  length X <> length demo_Y /\
  length X <> 1%nat /\
  (0 < n_estimators s)%Z /\
  Q_fit X demo_Y s = (Raise ValueError, after_fit s 3%Q []).
Proof.
  intros X s.
  assert (H1 : length X <> length demo_Y) by (simpl; lia).
  assert (H2 : length X <> 1%nat) by (simpl; lia).
  assert (H3 : (0 < n_estimators s)%Z) by (simpl; lia).
  repeat (split; [assumption|]).
  apply (@fit_shape_mismatch_raises Q (list Q) Q_ops (@Memorizer Q Q_ops)
           Q_regressor X demo_Y s H1 H2 H3).
  - intros e. reflexivity.
  - apply Q_regressor_accepts.
Defined.

Lemma fit_single_row_is_stretched_witness :
  let X := [[0%Q]] in
  let s := Q_init 2 1 (1 # 2)%Q in
  length X = 1%nat /\
  (0 <= n_estimators s)%Z /\
  exists p ens,
    @rounds_single_row Q (list Q) Q_ops (@Memorizer Q Q_ops) Q_regressor
                       (max_depth s) (learning_rate s) X demo_Y 3%Q
                       (Z.to_nat (n_estimators s)) p ens /\
    Z.of_nat (length ens) = n_estimators s /\
    Q_fit X demo_Y s = (Return tt, after_fit s 3%Q ens).
Proof.
  intros X s.
  assert (H2 : (0 <= n_estimators s)%Z) by (simpl; lia).
  split; [reflexivity|]. split; [exact H2|].
  apply (@fit_single_row_is_stretched Q (list Q) Q_ops (@Memorizer Q Q_ops)
           Q_regressor X demo_Y s eq_refl H2).
  - intros e. reflexivity.
  - apply Q_regressor_accepts.
Defined.

Lemma predict_after_fit_returns_training_predictions_witness :
  let s := Q_init 2 1 (1 # 2)%Q in
  estimators s = [] /\
  length demo_X = length demo_Y /\
  exists p ens,
    @rounds Q (list Q) Q_ops (@Memorizer Q Q_ops) Q_regressor
            (max_depth s) (learning_rate s) demo_X demo_Y 3%Q
            (Z.to_nat (n_estimators s)) p ens /\
    Q_fit demo_X demo_Y s = (Return tt, after_fit s 3%Q ens) /\
    Q_predict demo_X (after_fit s 3%Q ens) =
    (Return (map (_interpret_prediction Q_regressor) p), after_fit s 3%Q ens).
Proof.
  intros s. split; [reflexivity|]. split; [reflexivity|].
  apply (@predict_after_fit_returns_training_predictions Q (list Q) Q_ops
           (@Memorizer Q Q_ops) Q_regressor demo_X demo_Y s
           eq_refl eq_refl).
  - intros e. reflexivity.
  - apply Q_regressor_accepts.
Defined.

Lemma one_hot_encode_shape_and_entries_witness :
  (1 < length [2; 0; 2; 1]%Z)%nat /\
  length (nth 1 (_one_hot_encode [2; 0; 2; 1]%Z) []) =
  length (np_unique [2; 0; 2; 1]%Z).
Proof.
  assert (H : (1 < length [2; 0; 2; 1]%Z)%nat) by (simpl; lia).
  split; [exact H|].
  apply (proj1 (proj2 (proj2 (proj2
           (one_hot_encode_shape_and_entries [2; 0; 2; 1]%Z))) 1%nat H)).
Defined.

Lemma one_hot_encode_one_true_per_row_witness :
  (1 < length [2; 0; 2; 1]%Z)%nat /\
  exists k,
    (k < length (np_unique [2; 0; 2; 1]%Z))%nat /\
    nth k (np_unique [2; 0; 2; 1]%Z) 0%Z = nth 1 [2; 0; 2; 1]%Z 0%Z /\
    forall k', (k' < length (np_unique [2; 0; 2; 1]%Z))%nat ->
      (nth k' (nth 1 (_one_hot_encode [2; 0; 2; 1]%Z) []) false = true <->
       k' = k).
Proof.
  assert (H : (1 < length [2; 0; 2; 1]%Z)%nat) by (simpl; lia).
  split; [exact H|].
  apply (@one_hot_encode_one_true_per_row [2; 0; 2; 1]%Z 1%nat H).
Defined.
